(** * The diffusion kernel of maldi-learn (maldi_learn/kernels.py)

    A shallow embedding of [DiffusionKernel]: the two pointwise evaluators
    nested in [__call__], the three branches of [__call__] itself, the
    diagonal loop of [diag] and the constructor.

    Numbers are the real numbers of the Standard Library: every statement
    below is about the arithmetic the code denotes, not about its rounding.
    numpy arrays are lists (a matrix is a list of rows); the two effects the
    code has besides its result (the line printed in the gradient branch, the
    patch of the shared sklearn module) and the number of calls of the
    pointwise evaluator are kept in an explicit [World]. *)

From Stdlib Require Import Reals Lra Permutation.
From stdpp Require Import list strings pretty.

Local Open Scope R_scope.

(** ** Data *)

(** One peak: a row [[position, intensity]] of the spectrum's array. *)
Definition peak : Type := R * R.

(** A spectrum is an array of shape (n, 2); a collection is a sequence of
    spectra of varying length. *)
Abbreviation spectrum := (list peak).
Abbreviation collection := (list (list peak)).

Abbreviation vector := (list R).
Abbreviation matrix := (list (list R)).

(** ** numpy, scipy and sklearn primitives, by their documented contract *)

Module np.

(** [x[:, 0]] and [x[:, 1]]. *)
Definition col0 (x : spectrum) : vector := map fst x.
Definition col1 (x : spectrum) : vector := map snd x.

(** [v.reshape(-1, 1)]: a column, one coordinate per row. *)
Definition reshape_col (v : vector) : matrix := map (fun a => [a]) v.

(** [np.sum] of a vector and of a two-dimensional array. *)
Definition sum1 (v : vector) : R := foldr Rplus 0 v.
Definition sum (M : matrix) : R := sum1 (concat M).

(** [np.outer(a, b)]. *)
Definition outer (a b : vector) : matrix :=
  map (fun ai => map (fun bj => ai * bj) b) a.

(** Elementwise operations on arrays of equal shape, and with a scalar. *)
Definition map2 (f : R -> R -> R) (A B : matrix) : matrix :=
  zip_with (zip_with f) A B.
Definition mul (A B : matrix) : matrix := map2 Rmult A B.
Definition neg (A : matrix) : matrix := map (map Ropp) A.
Definition div_scalar (A : matrix) (c : R) : matrix :=
  map (map (fun a => a / c)) A.
Definition exp (A : matrix) : matrix := map (map Rtrigo_def.exp) A.

(** [np.zeros(n)]. *)
Definition zeros (n : nat) : vector := replicate n 0.

End np.

(** scipy's [sqeuclidean] metric on two coordinate vectors. *)
Definition sqeuclidean (u v : vector) : R :=
  np.sum1 (zip_with (fun a b => (a - b) ^ 2) u v).

(** [pairwise_distances(A, B, metric='sqeuclidean')]: entry [i, j] is the
    metric of row [i] of [A] and row [j] of [B]. *)
Definition pairwise_distances (A B : matrix) : matrix :=
  map (fun u => map (fun v => sqeuclidean u v) B) A.

(** ** Effects *)

Record World := mkWorld {
  metric_calls : nat;          (* calls of a pointwise evaluator so far *)
  stdout : list string;        (* lines printed so far *)
  check_patched : bool         (* sklearn's check_pairwise_arrays replaced *)
}.

Definition tick (n : nat) (w : World) : World :=
  mkWorld (metric_calls w + n) (stdout w) (check_patched w).

Definition print (line : string) (w : World) : World :=
  mkWorld (metric_calls w) (stdout w ++ [line]) (check_patched w).

Definition patch_check (w : World) : World :=
  mkWorld (metric_calls w) (stdout w) true.

Inductive exn : Type :=
  | ValueError (msg : string).

Inductive result (A : Type) : Type :=
  | Ok (a : A)
  | Raise (e : exn).
Arguments Ok {A} a.
Arguments Raise {A} e.

(** What [__call__] can hand back: [None], one array, or a tuple of two. *)
Inductive pyvalue : Type :=
  | PyNone
  | PyArray (K : matrix)
  | PyTuple (K K_gradient : matrix).

(** [pairwise_kernels(X, Y, metric=f)] with a callable metric: entry [i, j]
    is [f(X[i], Y[j])], and [Y] defaults to [X]. Every entry costs one call
    of [f]. *)
Definition pairwise_kernels (X : collection) (Y : option collection)
    (metric : spectrum -> spectrum -> R) (w : World) : World * matrix :=
  let Y' := default X Y in
  (tick (length X * length Y') w,
   map (fun x => map (fun y => metric x y) Y') X).

(** [str(A.shape)] of a two-dimensional array. *)
Definition shape_str (A : matrix) : string :=
  let rows := length A in
  let cols := length (default [] (head A)) in
  ("(" +:+ pretty rows +:+ ", " +:+ pretty cols +:+ ")")%string.

(** ** The kernel *)

Record DiffusionKernel := mkKernel { sigma : R }.

(** [DiffusionKernel.__init__]: stores [sigma] as given and patches the
    sklearn module; there is no other statement in the body. *)
Definition __init__ (sigma : R) (w : World) : World * result DiffusionKernel :=
  (patch_check w, Ok (mkKernel sigma)).

(** The closure [evaluate_kernel] of [__call__]. *)
Definition evaluate_kernel (self : DiffusionKernel) (x y : spectrum) : R :=
  let x_positions := np.reshape_col (np.col0 x) in
  let y_positions := np.reshape_col (np.col0 y) in
  let distances := pairwise_distances x_positions y_positions in
  let x_peaks := np.col1 x in
  let y_peaks := np.col1 y in
  let P := np.outer x_peaks y_peaks in
  let K := np.mul P (np.exp (np.div_scalar (np.neg distances) (8 * sigma self))) in
  let K := np.sum K in
  - K.

(** The closure [evaluate_gradient] of [__call__]. *)
Definition evaluate_gradient (self : DiffusionKernel) (x y : spectrum) : R :=
  let x_positions := np.reshape_col (np.col0 x) in
  let y_positions := np.reshape_col (np.col0 y) in
  let distances := pairwise_distances x_positions y_positions in
  let x_peaks := np.col1 x in
  let y_peaks := np.col1 y in
  let P := np.outer x_peaks y_peaks in
  let K := np.mul P (np.exp (np.div_scalar (np.neg distances) (8 * sigma self))) in
  let K_gradient := np.div_scalar (np.mul distances K) (4 * sigma self ^ 2) in
  - np.sum K_gradient.

(** [DiffusionKernel.__call__]. In the branch [Y is None and eval_gradient]
    the body ends after [print]: control falls off the end of the function,
    which in Python returns [None]. *)
Definition __call__ (self : DiffusionKernel) (X : collection)
    (Y : option collection) (eval_gradient : bool) (w : World)
    : World * result pyvalue :=
  match Y with
  | None =>
      if eval_gradient then
        let '(w, K) := pairwise_kernels X None (evaluate_kernel self) w in
        let '(w, K_gradient) :=
          pairwise_kernels X None (evaluate_gradient self) w in
        let w := print (shape_str K_gradient) w in
        (w, Ok PyNone)
      else
        let '(w, K) := pairwise_kernels X None (evaluate_kernel self) w in
        (w, Ok (PyArray K))
  | Some Y =>
      if eval_gradient then
        (w, Raise (ValueError "Gradient can only be evaluated when Y is None."))
      else
        let '(w, K) := pairwise_kernels X (Some Y) (evaluate_kernel self) w in
        (w, Ok (PyArray K))
  end.

(** [enumerate(X)]. *)
Definition enumerate {A : Type} (X : list A) : list (nat * A) :=
  zip (seq 0 (length X)) X.

(** One iteration of the loop of [diag]. *)
Definition diag_step (self : DiffusionKernel) (diag_values : vector)
    (ix : nat * spectrum) : vector :=
  let '(i, x) := ix in
  let x_positions := np.reshape_col (np.col0 x) in
  let distances := pairwise_distances x_positions x_positions in
  let x_peaks := np.col1 x in
  let P := np.outer x_peaks x_peaks in
  let K := np.mul P (np.exp (np.div_scalar (np.neg distances) (8 * sigma self))) in
  <[i := - np.sum K]> diag_values.

(** [DiffusionKernel.diag]. *)
Definition diag (self : DiffusionKernel) (X : collection) : vector :=
  let diag_values := np.zeros (length X) in
  foldl (diag_step self) diag_values (enumerate X).

(** ** The sum over all cross pairs *)

(** What one pair of peaks contributes to the kernel, and to its gradient. *)
Definition overlap (s : R) (p q : peak) : R :=
  snd p * snd q * exp (- (fst p - fst q) ^ 2 / (8 * s)).

Definition overlap_gradient (s : R) (p q : peak) : R :=
  (fst p - fst q) ^ 2 * overlap s p q / (4 * s ^ 2).

(** The sum of [f p q] over every peak [p] of [x] and every peak [q] of [y]. *)
Definition pair_sum (f : peak -> peak -> R) (x y : spectrum) : R :=
  np.sum1 (map (fun p => np.sum1 (map (f p) y)) x).

(** The kernel as the specification writes it: minus the sum over all
    indices [i] in [0, n) and [j] in [0, m). *)
Definition position (x : spectrum) (i : nat) : R := fst (nth i x (0, 0)).
Definition intensity (x : spectrum) (i : nat) : R := snd (nth i x (0, 0)).

Definition evaluate_spec (x y : spectrum) (s : R) : R :=
  - np.sum1 (map (fun i =>
      np.sum1 (map (fun j =>
        intensity x i * intensity y j
        * exp (- (position x i - position y j) ^ 2 / (8 * s)))
      (seq 0 (length y))))
    (seq 0 (length x))).

(** The entry [i, j] of a matrix, when it has one. *)
Definition entry (M : matrix) (i j : nat) : option R :=
  M !! i ≫= (fun row => row !! j).

Definition nonneg_intensities (x : spectrum) : Prop :=
  Forall (fun p : peak => 0 <= snd p) x.

(** Concrete inputs used below. *)
Definition world0 : World := mkWorld 0 [] false.
Definition unit_kernel : DiffusionKernel := mkKernel 1.
Definition peak_at_0 : spectrum := [(0, 1)].
Definition peak_at_1 : spectrum := [(1, 1)].
Definition two_peaks : spectrum := [(0, 1); (1, 2)].

(** ** Vocabulary for the further properties *)

(** The gradient as a sum over all indices, the counterpart of
    [evaluate_spec]. *)
Definition evaluate_gradient_spec (x y : spectrum) (s : R) : R :=
  - np.sum1 (map (fun i =>
      np.sum1 (map (fun j =>
        (position x i - position y j) ^ 2
        * (intensity x i * intensity y j
           * exp (- (position x i - position y j) ^ 2 / (8 * s)))
        / (4 * s ^ 2))
      (seq 0 (length y))))
    (seq 0 (length x))).

(** Every intensity of a point set multiplied by [c]; every position moved
    by [t]. *)
Definition scale_intensities (c : R) (x : spectrum) : spectrum :=
  map (fun p : peak => (fst p, c * snd p)) x.

Definition shift_positions (t : R) (x : spectrum) : spectrum :=
  map (fun p : peak => (fst p + t, snd p)) x.

(** The sum of the intensities of a point set, and of their squares. *)
Definition total_intensity (x : spectrum) : R := np.sum1 (np.col1 x).

Definition squared_intensity (x : spectrum) : R :=
  np.sum1 (map (fun p : peak => snd p ^ 2) x).

(** [F s] tends to [l] as [s] grows without bound. *)
Definition tends_to_at_infinity (F : R -> R) (l : R) : Prop :=
  forall eps, 0 < eps ->
    exists S, 0 < S /\ forall s, S < s -> Rabs (F s - l) < eps.

(** The shape [(rows, cols)] of a matrix all of whose rows have [cols]
    cells. *)
Definition has_shape (M : matrix) (rows cols : nat) : Prop :=
  length M = rows /\ Forall (fun row => length row = cols) M.

Section Sums.

Lemma sum1_app (u v : vector) : np.sum1 (u ++ v) = np.sum1 u + np.sum1 v.
Proof.
  induction u as [|a u IH]; simpl; [lra | rewrite IH; lra].
Qed.

Lemma sum1_map_plus {A : Type} (f g : A -> R) (l : list A) :
  np.sum1 (map (fun a => f a + g a) l)
  = np.sum1 (map f l) + np.sum1 (map g l).
Proof.
  induction l as [|a l IH]; simpl; [lra | rewrite IH; lra].
Qed.

Lemma sum1_map_ext {A : Type} (f g : A -> R) (l : list A) :
  (forall a, f a = g a) -> np.sum1 (map f l) = np.sum1 (map g l).
Proof.
  intros E. induction l as [|a l IH]; simpl; [reflexivity | now rewrite E, IH].
Qed.

Lemma sum1_map_zero {A : Type} (l : list A) :
  np.sum1 (map (fun _ => 0) l) = 0.
Proof.
  induction l as [|a l IH]; simpl; [reflexivity | rewrite IH; lra].
Qed.

Lemma sum1_perm (u v : vector) : Permutation u v -> np.sum1 u = np.sum1 v.
Proof.
  induction 1 as [| a u v _ IH | a b u | u v t _ IH1 _ IH2]; simpl.
  - reflexivity.
  - now rewrite IH.
  - lra.
  - now rewrite IH1.
Qed.

Lemma sum1_nonneg (v : vector) : Forall (fun a => 0 <= a) v -> 0 <= np.sum1 v.
Proof.
  induction 1 as [| a v Ha _ IH]; simpl; lra.
Qed.

Lemma pair_sum_nil_l f y : pair_sum f [] y = 0.
Proof. reflexivity. Qed.

Lemma pair_sum_nil_r f x : pair_sum f x [] = 0.
Proof. unfold pair_sum. simpl. apply sum1_map_zero. Qed.

Lemma pair_sum_cons_l f p x y :
  pair_sum f (p :: x) y = np.sum1 (map (f p) y) + pair_sum f x y.
Proof. reflexivity. Qed.

Lemma pair_sum_cons_r f x q y :
  pair_sum f x (q :: y) = np.sum1 (map (fun p => f p q) x) + pair_sum f x y.
Proof.
  unfold pair_sum. simpl. apply sum1_map_plus.
Qed.

(** The two orders of summation agree. *)
Lemma pair_sum_swap f x y : pair_sum f x y = pair_sum (fun q p => f p q) y x.
Proof.
  induction x as [|p x IH].
  - now rewrite pair_sum_nil_l, pair_sum_nil_r.
  - now rewrite pair_sum_cons_l, pair_sum_cons_r, IH.
Qed.

Lemma pair_sum_ext f g x y :
  (forall p q, f p q = g p q) -> pair_sum f x y = pair_sum g x y.
Proof.
  intros E. unfold pair_sum. apply sum1_map_ext. intros p.
  apply sum1_map_ext. intros q. apply E.
Qed.

Lemma pair_sum_perm f x x' y y' :
  Permutation x x' -> Permutation y y' -> pair_sum f x y = pair_sum f x' y'.
Proof.
  intros Hx Hy. transitivity (pair_sum f x' y).
  - unfold pair_sum. apply sum1_perm. now apply Permutation_map.
  - unfold pair_sum. apply sum1_map_ext. intros p.
    apply sum1_perm. now apply Permutation_map.
Qed.

Lemma pair_sum_nonneg f x y :
  (forall p q, In p x -> In q y -> 0 <= f p q) -> 0 <= pair_sum f x y.
Proof.
  intros H. unfold pair_sum. apply sum1_nonneg.
  apply List.Forall_forall. intros r Hr.
  apply List.in_map_iff in Hr as (p & <- & Hp).
  apply sum1_nonneg. apply List.Forall_forall. intros r Hr.
  apply List.in_map_iff in Hr as (q & <- & Hq). now apply H.
Qed.

(** A sum over the indices of a list is the sum over its elements. *)
Lemma sum1_seq_nth {A : Type} (d : A) (g : A -> R) (l : list A) :
  np.sum1 (map (fun i => g (nth i l d)) (seq 0 (length l)))
  = np.sum1 (map g l).
Proof.
  induction l as [|a l IH]; simpl; [reflexivity|].
  rewrite <- seq_shift, List.map_map. simpl. now rewrite IH.
Qed.

End Sums.

(** ** The evaluators as sums over cross pairs *)

Section Evaluators.

Variable self : DiffusionKernel.

(** One row of the array [K] of both evaluators. *)
Lemma kernel_row_sum (p : peak) (y : spectrum) :
  np.sum1
    (zip_with Rmult
       (map (fun bj => snd p * bj) (np.col1 y))
       (map exp
          (map (fun a => a / (8 * sigma self))
             (map Ropp
                (map (fun v => sqeuclidean [fst p] v)
                   (np.reshape_col (np.col0 y)))))))
  = np.sum1 (map (overlap (sigma self) p) y).
Proof.
  induction y as [|q y IH]; simpl; [reflexivity|].
  rewrite IH. unfold overlap, sqeuclidean. simpl.
  replace ((fst p - fst q) * ((fst p - fst q) * 1) + 0)
    with ((fst p - fst q) * ((fst p - fst q) * 1)) by lra.
  reflexivity.
Qed.

Lemma evaluate_kernel_pair_sum (x y : spectrum) :
  evaluate_kernel self x y = - pair_sum (overlap (sigma self)) x y.
Proof.
  unfold evaluate_kernel. f_equal.
  induction x as [|p x IH]; [reflexivity|].
  rewrite pair_sum_cons_l, <- IH. unfold np.sum. simpl.
  now rewrite sum1_app, kernel_row_sum.
Qed.

Lemma gradient_row_sum (p : peak) (y : spectrum) :
  np.sum1
    (map (fun a => a / (4 * sigma self ^ 2))
       (zip_with Rmult
          (map (fun v => sqeuclidean [fst p] v) (np.reshape_col (np.col0 y)))
          (zip_with Rmult
             (map (fun bj => snd p * bj) (np.col1 y))
             (map exp
                (map (fun a => a / (8 * sigma self))
                   (map Ropp
                      (map (fun v => sqeuclidean [fst p] v)
                         (np.reshape_col (np.col0 y)))))))))
  = np.sum1 (map (overlap_gradient (sigma self) p) y).
Proof.
  induction y as [|q y IH]; simpl in *; [reflexivity|].
  rewrite IH. unfold overlap_gradient, overlap, sqeuclidean. simpl.
  replace ((fst p - fst q) * ((fst p - fst q) * 1) + 0)
    with ((fst p - fst q) * ((fst p - fst q) * 1)) by lra.
  reflexivity.
Qed.

Lemma evaluate_gradient_pair_sum (x y : spectrum) :
  evaluate_gradient self x y = - pair_sum (overlap_gradient (sigma self)) x y.
Proof.
  unfold evaluate_gradient. f_equal.
  induction x as [|p x IH]; [reflexivity|].
  rewrite pair_sum_cons_l, <- IH. unfold np.sum. simpl.
  now rewrite sum1_app, gradient_row_sum.
Qed.

Lemma overlap_sym (s : R) (p q : peak) : overlap s p q = overlap s q p.
Proof.
  unfold overlap.
  replace ((fst q - fst p) ^ 2) with ((fst p - fst q) ^ 2) by (simpl; lra).
  lra.
Qed.

Lemma overlap_gradient_sym (s : R) (p q : peak) :
  overlap_gradient s p q = overlap_gradient s q p.
Proof.
  unfold overlap_gradient. rewrite (overlap_sym s p q).
  replace ((fst q - fst p) ^ 2) with ((fst p - fst q) ^ 2) by (simpl; lra).
  reflexivity.
Qed.

Lemma evaluate_kernel_sym (x y : spectrum) :
  evaluate_kernel self x y = evaluate_kernel self y x.
Proof.
  rewrite !evaluate_kernel_pair_sum, pair_sum_swap. f_equal.
  apply pair_sum_ext. intros p q. apply overlap_sym.
Qed.

Lemma overlap_nonneg (s : R) (p q : peak) :
  0 <= snd p -> 0 <= snd q -> 0 <= overlap s p q.
Proof.
  intros Hp Hq. unfold overlap.
  apply Rmult_le_pos; [now apply Rmult_le_pos | left; apply exp_pos].
Qed.

Lemma evaluate_kernel_nonpos (x y : spectrum) :
  nonneg_intensities x -> nonneg_intensities y ->
  evaluate_kernel self x y <= 0.
Proof.
  intros Hx Hy. rewrite evaluate_kernel_pair_sum.
  apply Ropp_le_cancel. rewrite Ropp_involutive, Ropp_0.
  apply pair_sum_nonneg. intros p q Hp Hq.
  apply overlap_nonneg.
  - exact (proj1 (List.Forall_forall _ x) Hx p Hp).
  - exact (proj1 (List.Forall_forall _ y) Hy q Hq).
Qed.

End Evaluators.

(** ** The derivative of the kernel in [sigma] *)

Section Derivative.

Lemma derivable_pt_lim_value f x l l' :
  l = l' -> derivable_pt_lim f x l -> derivable_pt_lim f x l'.
Proof. now intros <-. Qed.

(** The exponent [- d / (8 t)] has derivative [d / (8 s ^ 2)] at [s > 0]. *)
Lemma exponent_derivative (d s : R) :
  0 < s -> derivable_pt_lim (fun t => - d / (8 * t)) s (d / (8 * s ^ 2)).
Proof.
  intros Hs.
  pose proof (derivable_pt_lim_div (fct_cte (- d)) (mult_real_fct 8 id) s 0 (8 * 1)
                (derivable_pt_lim_const _ _)
                (derivable_pt_lim_scal _ _ _ _ (derivable_pt_lim_id s))) as H.
  unfold div_fct, fct_cte, mult_real_fct, id in H.
  eapply derivable_pt_lim_value; [| apply H; lra].
  unfold Rsqr. field. lra.
Qed.

Lemma overlap_derivative (s : R) (p q : peak) :
  0 < s ->
  derivable_pt_lim (fun t => overlap t p q) s (overlap_gradient s p q / 2).
Proof.
  intros Hs. set (d := (fst p - fst q) ^ 2).
  pose proof (derivable_pt_lim_comp (fun t => - d / (8 * t)) exp s _ _
                (exponent_derivative d s Hs) (derivable_pt_lim_exp _)) as H.
  apply (derivable_pt_lim_scal _ (snd p * snd q)) in H.
  unfold mult_real_fct, comp in H.
  eapply derivable_pt_lim_value; [| exact H].
  unfold overlap_gradient, overlap. fold d. field. lra.
Qed.

Lemma sum1_derivative {A : Type} (F : R -> A -> R) (G : A -> R)
    (l : list A) (s : R) :
  (forall a, derivable_pt_lim (fun t => F t a) s (G a)) ->
  derivable_pt_lim (fun t => np.sum1 (map (F t) l)) s (np.sum1 (map G l)).
Proof.
  intros H. induction l as [|a l IH]; simpl.
  - apply (derivable_pt_lim_const 0).
  - apply (derivable_pt_lim_plus (fun t => F t a) _ s _ _ (H a) IH).
Qed.

Lemma pair_sum_derivative (f : R -> peak -> peak -> R) (g : peak -> peak -> R)
    (x y : spectrum) (s : R) :
  (forall p q, derivable_pt_lim (fun t => f t p q) s (g p q)) ->
  derivable_pt_lim (fun t => pair_sum (f t) x y) s (pair_sum g x y).
Proof.
  intros H. unfold pair_sum.
  apply (sum1_derivative (fun t p => np.sum1 (map (f t p) y))).
  intros p. apply (sum1_derivative (fun t q => f t p q)). intros q. apply H.
Qed.

Lemma sum1_map_half {A : Type} (f : A -> R) (l : list A) :
  np.sum1 (map (fun a => f a / 2) l) = np.sum1 (map f l) / 2.
Proof.
  induction l as [|a l IH]; simpl; [lra | rewrite IH; lra].
Qed.

Lemma pair_sum_half f x y :
  pair_sum (fun p q => f p q / 2) x y = pair_sum f x y / 2.
Proof.
  unfold pair_sum. rewrite <- sum1_map_half. apply sum1_map_ext.
  intros p. apply sum1_map_half.
Qed.

(** The derivative of the kernel in [sigma] is half of what
    [evaluate_gradient] returns. *)
Lemma evaluate_kernel_derivative (x y : spectrum) (s : R) :
  0 < s ->
  derivable_pt_lim (fun t => evaluate_kernel (mkKernel t) x y) s
    (evaluate_gradient (mkKernel s) x y / 2).
Proof.
  intros Hs.
  apply derivable_pt_lim_ext
    with (f := fun t => - pair_sum (overlap t) x y).
  { intros t. now rewrite evaluate_kernel_pair_sum. }
  rewrite evaluate_gradient_pair_sum. simpl sigma.
  apply derivable_pt_lim_value
    with (l := - pair_sum (fun p q => overlap_gradient s p q / 2) x y).
  { rewrite pair_sum_half. lra. }
  apply (derivable_pt_lim_opp (fun t => pair_sum (overlap t) x y)).
  apply pair_sum_derivative. intros p q. now apply overlap_derivative.
Qed.

End Derivative.

(** ** Entries of the assembled matrices, and the loop of [diag] *)

Section Assembler.

Variable self : DiffusionKernel.

Lemma lookup_map {A B : Type} (f : A -> B) (l : list A) (i : nat) :
  map f l !! i = f <$> l !! i.
Proof.
  revert i. induction l as [|a l IH]; intros [|i]; simpl; auto.
Qed.

Lemma pairwise_entry (f : spectrum -> spectrum -> R) (X Y : collection)
    (i j : nat) :
  entry (map (fun x => map (fun y => f x y) Y) X) i j
  = X !! i ≫= (fun x => Y !! j ≫= (fun y => Some (f x y))).
Proof.
  unfold entry. rewrite lookup_map.
  destruct (X !! i) as [x|]; simpl; [|reflexivity].
  rewrite lookup_map. now destruct (Y !! j).
Qed.

Lemma diag_step_evaluate (acc : vector) (i : nat) (x : spectrum) :
  diag_step self acc (i, x) = <[i := evaluate_kernel self x x]> acc.
Proof. reflexivity. Qed.

(** The loop invariant: after the peaks numbered from [k] on have been
    visited, the cells below [k] are untouched and the others hold the
    self-similarities. *)
Lemma diag_loop (X : collection) :
  forall (k : nat) (acc : vector),
    length acc = (k + length X)%nat ->
    foldl (diag_step self) acc (zip (seq k (length X)) X)
    = take k acc ++ map (fun x => evaluate_kernel self x x) X.
Proof.
  induction X as [|x X IH]; intros k acc Hlen; simpl in Hlen;
    cbn [length seq zip_with foldl].
  - rewrite app_nil_r, take_ge; [reflexivity | lia].
  - rewrite diag_step_evaluate, IH by (rewrite length_insert; lia).
    rewrite (take_S_r _ _ (evaluate_kernel self x x))
      by (apply list_lookup_insert_eq; lia).
    rewrite take_insert_ge by lia.
    now rewrite <- app_assoc.
Qed.

Lemma diag_map (X : collection) :
  diag self X = map (fun x => evaluate_kernel self x x) X.
Proof.
  unfold diag, enumerate, np.zeros.
  rewrite diag_loop by (rewrite length_replicate; lia).
  reflexivity.
Qed.

End Assembler.

(** ** The claims *)

(** C1 (the code departs from the claim). In self-similarity mode with the
    gradient requested, [__call__] assembles the kernel matrix and the
    gradient matrix, prints the shape of the latter and then falls off the
    end of the function: for every kernel, collection and world the value
    handed back is [None], never a tuple of two matrices. *)
Theorem call_with_gradient_returns_None
    (self : DiffusionKernel) (X : collection) (w : World) :
  snd (__call__ self X None true w) = Ok PyNone
  /\ (forall K G, snd (__call__ self X None true w) <> Ok (PyTuple K G))
  /\ __call__ unit_kernel [peak_at_0] None true world0
     = (mkWorld 2 ["(1, 1)"%string] false, Ok PyNone).
Proof.
  split; [reflexivity | split; [discriminate | reflexivity]].
Qed.

(** C2 (the code departs from the claim). At [x = [(0, 1)]], [y = [(1, 1)]]
    and [sigma = 1] the kernel, as a function of [sigma], has derivative
    [evaluate_gradient(x, y) / 2], and [evaluate_gradient(x, y)] itself is
    not its derivative: the code divides by [4 sigma^2] where the derivative
    of [exp(-d / (8 sigma))] needs [8 sigma^2]. *)
Theorem evaluate_gradient_is_not_the_derivative :
  derivable_pt_lim (fun t => evaluate_kernel (mkKernel t) peak_at_0 peak_at_1) 1
    (evaluate_gradient unit_kernel peak_at_0 peak_at_1 / 2)
  /\ ~ derivable_pt_lim
         (fun t => evaluate_kernel (mkKernel t) peak_at_0 peak_at_1) 1
         (evaluate_gradient unit_kernel peak_at_0 peak_at_1).
Proof.
  assert (D := evaluate_kernel_derivative peak_at_0 peak_at_1 1 Rlt_0_1).
  split; [exact D|]. intros D'.
  pose proof (uniqueness_limite _ _ _ _ D D') as E.
  assert (G : evaluate_gradient unit_kernel peak_at_0 peak_at_1 < 0).
  { rewrite evaluate_gradient_pair_sum.
    unfold pair_sum, overlap_gradient, overlap, peak_at_0, peak_at_1. simpl.
    pose proof (exp_pos (- ((0 - 1) * ((0 - 1) * 1)) / (8 * 1))). lra. }
  unfold unit_kernel in *. lra.
Qed.

(** C3, as the claim states it, fails: the constructor called with
    [sigma = -1] signals no error and hands back an instance that holds
    [-1]. *)
Lemma init_accepts_negative_sigma :
  -1 <= 0
  /\ __init__ (-1) world0 = (patch_check world0, Ok (mkKernel (-1)))
  /\ ~ (forall s w, s <= 0 -> exists e, snd (__init__ s w) = Raise e).
Proof.
  split; [lra | split; [reflexivity|]].
  intros H. destruct (H (-1) world0) as [e He]; [lra | discriminate He].
Qed.

(** C3 (amended). The constructor validates nothing: for every [sigma], in
    particular every [sigma <= 0], it signals no error and hands back an
    instance whose smoothing parameter is [sigma] as given; the only effect
    is the patch of the sklearn module. *)
Theorem init_stores_any_sigma (s : R) (w : World) :
  exists self,
    snd (__init__ s w) = Ok self
    /\ sigma self = s
    /\ (forall e, snd (__init__ s w) <> Raise e)
    /\ metric_calls (fst (__init__ s w)) = metric_calls w
    /\ stdout (fst (__init__ s w)) = stdout w.
Proof.
  exists (mkKernel s). repeat split. discriminate.
Qed.

(** C4. For point sets [x] of size [n] and [y] of size [m] and [sigma > 0],
    [evaluate_kernel] is minus the sum over all [i] in [0, n) and [j] in
    [0, m) of
    [intensity_x[i] * intensity_y[j] * exp(-(pos_x[i] - pos_y[j])^2 / (8 sigma))]. *)
Theorem evaluate_kernel_closed_form
    (self : DiffusionKernel) (x y : spectrum) :
  0 < sigma self ->
  evaluate_kernel self x y = evaluate_spec x y (sigma self).
Proof.
  intros _. rewrite evaluate_kernel_pair_sum.
  unfold evaluate_spec, pair_sum. f_equal. symmetry.
  etransitivity.
  - apply (sum1_seq_nth (0, 0)
             (fun p => np.sum1 (map (fun j =>
                snd p * intensity y j
                * exp (- (fst p - position y j) ^ 2 / (8 * sigma self)))
              (seq 0 (length y)))) x).
  - apply sum1_map_ext. intros p.
    apply (sum1_seq_nth (0, 0) (overlap (sigma self) p) y).
Qed.

Lemma evaluate_kernel_closed_form_witness :
  0 < sigma unit_kernel
  /\ evaluate_kernel unit_kernel two_peaks peak_at_1
     = evaluate_spec two_peaks peak_at_1 (sigma unit_kernel).
Proof.
  split; [simpl; lra|].
  apply (evaluate_kernel_closed_form unit_kernel two_peaks peak_at_1).
  simpl; lra.
Defined.

(** C5. For [sigma > 0] the evaluator is symmetric in its two arguments,
    and the matrix [__call__] returns in self-similarity mode has an entry
    at every [i, j] below the size of the collection, equal to the entry at
    [j, i]. *)
Theorem kernel_matrix_symmetric
    (self : DiffusionKernel) (C : collection) (w : World) :
  0 < sigma self ->
  (forall x y, evaluate_kernel self x y = evaluate_kernel self y x)
  /\ exists K,
       snd (__call__ self C None false w) = Ok (PyArray K)
       /\ (forall i j, entry K i j = entry K j i)
       /\ (forall i j, (i < length C)%nat -> (j < length C)%nat ->
             is_Some (entry K i j)).
Proof.
  intros _. split; [apply evaluate_kernel_sym|].
  eexists. split; [reflexivity|]. split.
  - intros i j. rewrite !pairwise_entry. simpl.
    destruct (C !! i) as [x|], (C !! j) as [y|]; simpl; try reflexivity.
    now rewrite evaluate_kernel_sym.
  - intros i j Hi Hj. rewrite pairwise_entry. simpl.
    apply lookup_lt_is_Some_2 in Hi as [x ->].
    apply lookup_lt_is_Some_2 in Hj as [y ->]. simpl. eauto.
Qed.

Lemma kernel_matrix_symmetric_witness :
  0 < sigma unit_kernel
  /\ exists K,
       snd (__call__ unit_kernel [two_peaks; peak_at_1] None false world0)
       = Ok (PyArray K)
       /\ entry K 0 1 = entry K 1 0.
Proof.
  split; [simpl; lra|].
  destruct (kernel_matrix_symmetric unit_kernel [two_peaks; peak_at_1] world0)
    as [_ [K [HK [Hsym _]]]]; [simpl; lra|].
  exists K. split; [exact HK | apply Hsym].
Defined.

(** C6. For [sigma > 0] and every index [i] of the collection, the loop of
    [diag] leaves in cell [i] exactly [evaluate_kernel(C[i], C[i])], which
    is the entry [i, i] of the matrix [__call__] returns in self-similarity
    mode; [diag] has one cell per element of the collection. *)
Theorem diag_agrees_with_matrix
    (self : DiffusionKernel) (C : collection) (w : World) (i : nat) :
  0 < sigma self ->
  (i < length C)%nat ->
  exists K x,
    snd (__call__ self C None false w) = Ok (PyArray K)
    /\ C !! i = Some x
    /\ diag self C !! i = Some (evaluate_kernel self x x)
    /\ entry K i i = diag self C !! i
    /\ length (diag self C) = length C.
Proof.
  intros _ Hi. apply lookup_lt_is_Some_2 in Hi as [x Hx].
  eexists. exists x. split; [reflexivity|]. split; [exact Hx|].
  rewrite diag_map, lookup_map, Hx. split; [reflexivity|]. split.
  - rewrite pairwise_entry. simpl. now rewrite Hx.
  - apply length_map.
Qed.

Lemma diag_agrees_with_matrix_witness :
  0 < sigma unit_kernel
  /\ (1 < length [two_peaks; peak_at_1])%nat
  /\ exists K,
       snd (__call__ unit_kernel [two_peaks; peak_at_1] None false world0)
       = Ok (PyArray K)
       /\ entry K 1 1 = diag unit_kernel [two_peaks; peak_at_1] !! 1%nat.
Proof.
  split; [simpl; lra|]. split; [simpl; lia|].
  destruct (diag_agrees_with_matrix unit_kernel [two_peaks; peak_at_1]
              world0 1)
    as [K [x [HK [_ [_ [HD _]]]]]]; [simpl; lra | simpl; lia |].
  exists K. split; [exact HK | exact HD].
Defined.

(** C7. For [sigma > 0] and every point set [y], the kernel and its
    gradient are zero as soon as one of the two point sets is empty. *)
Theorem empty_spectrum_zero (self : DiffusionKernel) (y : spectrum) :
  0 < sigma self ->
  evaluate_kernel self [] y = 0
  /\ evaluate_gradient self [] y = 0
  /\ evaluate_kernel self y [] = 0
  /\ evaluate_gradient self y [] = 0.
Proof.
  intros _.
  rewrite !evaluate_kernel_pair_sum, !evaluate_gradient_pair_sum,
    !pair_sum_nil_l, !pair_sum_nil_r.
  repeat split; lra.
Qed.

Lemma empty_spectrum_zero_witness :
  0 < sigma unit_kernel
  /\ evaluate_kernel unit_kernel [] two_peaks = 0
  /\ evaluate_gradient unit_kernel [] two_peaks = 0
  /\ evaluate_kernel unit_kernel two_peaks [] = 0
  /\ evaluate_gradient unit_kernel two_peaks [] = 0.
Proof.
  split; [simpl; lra|].
  apply (empty_spectrum_zero unit_kernel two_peaks). simpl; lra.
Defined.

(** C8. When a second collection is supplied together with
    [eval_gradient], [__call__] raises [ValueError] with a message that
    names the precondition. The world it hands back is the one it was
    given: no pointwise evaluator has been called, nothing was printed, and
    no matrix is returned. *)
Theorem gradient_with_second_collection_raises
    (self : DiffusionKernel) (X Y : collection) (w : World) :
  __call__ self X (Some Y) true w
  = (w, Raise (ValueError "Gradient can only be evaluated when Y is None."))
  /\ metric_calls (fst (__call__ self X (Some Y) true w)) = metric_calls w
  /\ (forall v, snd (__call__ self X (Some Y) true w) <> Ok v).
Proof.
  split; [reflexivity | split; [reflexivity | discriminate]].
Qed.

(** C9. For [sigma > 0], reordering the peaks inside [x] and inside [y]
    changes neither the kernel nor its gradient. *)
Theorem evaluators_permutation_invariant
    (self : DiffusionKernel) (x x' y y' : spectrum) :
  0 < sigma self ->
  Permutation x x' ->
  Permutation y y' ->
  evaluate_kernel self x y = evaluate_kernel self x' y'
  /\ evaluate_gradient self x y = evaluate_gradient self x' y'.
Proof.
  intros _ Hx Hy.
  rewrite !evaluate_kernel_pair_sum, !evaluate_gradient_pair_sum.
  split; f_equal; now apply pair_sum_perm.
Qed.

Lemma evaluators_permutation_invariant_witness :
  0 < sigma unit_kernel
  /\ Permutation two_peaks [(1, 2); (0, 1)]
  /\ evaluate_kernel unit_kernel two_peaks peak_at_1
     = evaluate_kernel unit_kernel [(1, 2); (0, 1)] peak_at_1
  /\ evaluate_gradient unit_kernel two_peaks peak_at_1
     = evaluate_gradient unit_kernel [(1, 2); (0, 1)] peak_at_1.
Proof.
  split; [simpl; lra|]. split; [apply perm_swap|].
  apply (evaluators_permutation_invariant unit_kernel
           two_peaks [(1, 2); (0, 1)] peak_at_1 peak_at_1).
  - simpl; lra.
  - apply perm_swap.
  - apply Permutation_refl.
Defined.

(** C10. For [sigma > 0], the kernel of two point sets with non-negative
    intensities is at most zero; hence, for collections of such point sets,
    every entry of the matrix of the self-similarity mode and of the cross
    mode, and every cell of [diag], is at most zero. *)
Theorem kernel_values_nonpositive
    (self : DiffusionKernel) (X Y : collection) (w : World) :
  0 < sigma self ->
  Forall nonneg_intensities X ->
  Forall nonneg_intensities Y ->
  (forall x y, nonneg_intensities x -> nonneg_intensities y ->
     evaluate_kernel self x y <= 0)
  /\ (exists K,
        snd (__call__ self X None false w) = Ok (PyArray K)
        /\ forall i j v, entry K i j = Some v -> v <= 0)
  /\ (exists K,
        snd (__call__ self X (Some Y) false w) = Ok (PyArray K)
        /\ forall i j v, entry K i j = Some v -> v <= 0)
  /\ (forall i v, diag self X !! i = Some v -> v <= 0).
Proof.
  intros _ HX HY.
  assert (E : forall (A B : collection) i j v,
             Forall nonneg_intensities A -> Forall nonneg_intensities B ->
             entry (map (fun x => map (fun y => evaluate_kernel self x y) B) A)
               i j = Some v -> v <= 0).
  { intros A B i j v HA HB. rewrite pairwise_entry.
    destruct (A !! i) as [x|] eqn:Ex; simpl; [|discriminate].
    destruct (B !! j) as [y|] eqn:Ey; simpl; [|discriminate].
    intros [= <-]. apply evaluate_kernel_nonpos.
    - exact (proj1 (Forall_lookup _ A) HA i x Ex).
    - exact (proj1 (Forall_lookup _ B) HB j y Ey). }
  split; [apply evaluate_kernel_nonpos|].
  split; [eexists; split; [reflexivity|]; intros i j v; now apply E|].
  split; [eexists; split; [reflexivity|]; intros i j v; now apply E|].
  intros i v. rewrite diag_map, lookup_map.
  destruct (X !! i) as [x|] eqn:Ex; simpl; [|discriminate].
  intros [= <-]. apply evaluate_kernel_nonpos;
    exact (proj1 (Forall_lookup _ X) HX i x Ex).
Qed.

Lemma kernel_values_nonpositive_witness :
  0 < sigma unit_kernel
  /\ Forall nonneg_intensities [two_peaks; peak_at_1]
  /\ Forall nonneg_intensities [peak_at_0]
  /\ evaluate_kernel unit_kernel two_peaks peak_at_0 <= 0.
Proof.
  assert (H2 : nonneg_intensities two_peaks)
    by (repeat constructor; simpl; lra).
  assert (H1 : nonneg_intensities peak_at_1)
    by (repeat constructor; simpl; lra).
  assert (H0 : nonneg_intensities peak_at_0)
    by (repeat constructor; simpl; lra).
  assert (HX : Forall nonneg_intensities [two_peaks; peak_at_1])
    by (constructor; [exact H2 | constructor; [exact H1 | constructor]]).
  assert (HY : Forall nonneg_intensities [peak_at_0])
    by (constructor; [exact H0 | constructor]).
  split; [simpl; lra|].
  split; [exact HX|].
  split; [exact HY|].
  apply (kernel_values_nonpositive unit_kernel [two_peaks; peak_at_1]
           [peak_at_0] world0); try assumption.
  simpl; lra.
Defined.


(** ** Further properties of the evaluators *)

Section MoreSums.

Lemma sum1_map_scal {A : Type} (c : R) (f : A -> R) (l : list A) :
  np.sum1 (map (fun a => c * f a) l) = c * np.sum1 (map f l).
Proof.
  induction l as [|a l IH]; simpl; [lra | rewrite IH; lra].
Qed.

Lemma sum1_map_le {A : Type} (f g : A -> R) (l : list A) :
  (forall a, In a l -> f a <= g a) ->
  np.sum1 (map f l) <= np.sum1 (map g l).
Proof.
  induction l as [|a l IH]; intros H; simpl; [lra|].
  assert (f a <= g a) by (apply H; now left).
  assert (np.sum1 (map f l) <= np.sum1 (map g l))
    by (apply IH; intros b Hb; apply H; now right).
  lra.
Qed.

Lemma sum1_map_nonneg {A : Type} (f : A -> R) (l : list A) :
  (forall a, In a l -> 0 <= f a) -> 0 <= np.sum1 (map f l).
Proof.
  intros H. rewrite <- (sum1_map_zero l). now apply sum1_map_le.
Qed.

Lemma pair_sum_le f g x y :
  (forall p q, In p x -> In q y -> f p q <= g p q) ->
  pair_sum f x y <= pair_sum g x y.
Proof.
  intros H. unfold pair_sum. apply sum1_map_le. intros p Hp.
  apply sum1_map_le. intros q Hq. now apply H.
Qed.

Lemma pair_sum_app_l f x x' y :
  pair_sum f (x ++ x') y = pair_sum f x y + pair_sum f x' y.
Proof.
  unfold pair_sum. now rewrite List.map_app, sum1_app.
Qed.

Lemma pair_sum_app_r f x y y' :
  pair_sum f x (y ++ y') = pair_sum f x y + pair_sum f x y'.
Proof.
  rewrite !(pair_sum_swap f). apply pair_sum_app_l.
Qed.

Lemma pair_sum_scal c f x y :
  pair_sum (fun p q => c * f p q) x y = c * pair_sum f x y.
Proof.
  unfold pair_sum. rewrite <- sum1_map_scal. apply sum1_map_ext.
  intros p. apply sum1_map_scal.
Qed.

Lemma pair_sum_map f (g h : peak -> peak) x y :
  pair_sum f (map g x) (map h y) = pair_sum (fun p q => f (g p) (h q)) x y.
Proof.
  unfold pair_sum. rewrite List.map_map. apply sum1_map_ext. intros p.
  now rewrite List.map_map.
Qed.

(** The sum of the products is the product of the sums. *)
Lemma pair_sum_product x y :
  pair_sum (fun p q => snd p * snd q) x y
  = total_intensity x * total_intensity y.
Proof.
  induction x as [|p x IH].
  - rewrite pair_sum_nil_l. unfold total_intensity. simpl. lra.
  - rewrite pair_sum_cons_l, IH, sum1_map_scal.
    unfold total_intensity, np.col1. simpl map.
    change (np.sum1 (snd p :: map snd x)) with (snd p + np.sum1 (map snd x)).
    unfold peak. ring.
Qed.

(** The diagonal terms of a sum of non-negative terms over [x] times [x]. *)
Lemma pair_sum_diagonal_le f x :
  (forall p q, In p x -> In q x -> 0 <= f p q) ->
  np.sum1 (map (fun p => f p p) x) <= pair_sum f x x.
Proof.
  induction x as [|p x IH]; intros H; [unfold pair_sum; simpl; lra|].
  rewrite pair_sum_cons_l. simpl map. rewrite pair_sum_cons_r.
  cbn [np.sum1 foldr]. fold (np.sum1 (map (f p) x)).
  fold (np.sum1 (map (fun p0 => f p0 p0) x)).
  assert (0 <= np.sum1 (map (f p) x))
    by (apply sum1_map_nonneg; intros q Hq; apply H; [now left | now right]).
  assert (0 <= np.sum1 (map (fun p0 => f p0 p) x))
    by (apply sum1_map_nonneg; intros q Hq; apply H; [now right | now left]).
  assert (np.sum1 (map (fun p0 => f p0 p0) x) <= pair_sum f x x)
    by (apply IH; intros a b Ha Hb; apply H; now right).
  lra.
Qed.

Lemma exp_le (a b : R) : a <= b -> exp a <= exp b.
Proof.
  intros [Hlt | ->]; [left; now apply exp_increasing | lra].
Qed.

Lemma exp_nonpos_le_1 (a : R) : a <= 0 -> exp a <= 1.
Proof.
  intros H. rewrite <- exp_0. now apply exp_le.
Qed.

Lemma sq_nonneg (a : R) : 0 <= a ^ 2.
Proof. simpl. nra. Qed.

Lemma exponent_nonpos (d s : R) : 0 <= d -> 0 < s -> - d / (8 * s) <= 0.
Proof.
  intros Hd Hs. unfold Rdiv.
  assert (0 < / (8 * s)) by (apply Rinv_0_lt_compat; lra). nra.
Qed.

Lemma exponent_mono (d s t : R) :
  0 <= d -> 0 < s -> s <= t -> - d / (8 * s) <= - d / (8 * t).
Proof.
  intros Hd Hs Hst. unfold Rdiv.
  assert (/ (8 * t) <= / (8 * s)) by (apply Rinv_le_contravar; lra).
  nra.
Qed.

End MoreSums.

Section MoreEvaluators.

Lemma overlap_scale_l s c p q :
  overlap s (fst p, c * snd p) q = c * overlap s p q.
Proof. unfold overlap. simpl. ring. Qed.

Lemma overlap_gradient_scale_l s c p q :
  overlap_gradient s (fst p, c * snd p) q = c * overlap_gradient s p q.
Proof.
  unfold overlap_gradient. rewrite overlap_scale_l. simpl fst.
  unfold Rdiv. ring.
Qed.

Lemma overlap_shift s t p q :
  overlap s (fst p + t, snd p) (fst q + t, snd q) = overlap s p q.
Proof.
  unfold overlap. simpl fst. simpl snd.
  replace ((fst p + t - (fst q + t)) ^ 2) with ((fst p - fst q) ^ 2)
    by (simpl; ring).
  reflexivity.
Qed.

Lemma overlap_gradient_shift s t p q :
  overlap_gradient s (fst p + t, snd p) (fst q + t, snd q)
  = overlap_gradient s p q.
Proof.
  unfold overlap_gradient. rewrite overlap_shift. simpl fst.
  replace ((fst p + t - (fst q + t)) ^ 2) with ((fst p - fst q) ^ 2)
    by (simpl; ring).
  reflexivity.
Qed.

Lemma overlap_le_product s p q :
  0 < s -> 0 <= snd p -> 0 <= snd q -> overlap s p q <= snd p * snd q.
Proof.
  intros Hs Hp Hq. unfold overlap.
  assert (exp (- (fst p - fst q) ^ 2 / (8 * s)) <= 1)
    by (apply exp_nonpos_le_1, exponent_nonpos; [apply sq_nonneg | exact Hs]).
  assert (0 <= snd p * snd q) by now apply Rmult_le_pos.
  nra.
Qed.

Lemma overlap_mono_sigma s t p q :
  0 < s -> s <= t -> 0 <= snd p -> 0 <= snd q ->
  overlap s p q <= overlap t p q.
Proof.
  intros Hs Hst Hp Hq. unfold overlap.
  apply Rmult_le_compat_l; [now apply Rmult_le_pos|].
  apply exp_le, exponent_mono; [apply sq_nonneg | exact Hs | exact Hst].
Qed.

Lemma overlap_gradient_nonneg s p q :
  0 < s -> 0 <= snd p -> 0 <= snd q -> 0 <= overlap_gradient s p q.
Proof.
  intros Hs Hp Hq. unfold overlap_gradient, Rdiv.
  apply Rmult_le_pos.
  - apply Rmult_le_pos; [apply sq_nonneg | now apply overlap_nonneg].
  - left. apply Rinv_0_lt_compat. simpl. nra.
Qed.

Lemma overlap_same_position s a p q : overlap s (a, p) (a, q) = p * q.
Proof.
  unfold overlap. simpl fst. simpl snd.
  replace (- (a - a) ^ 2 / (8 * s)) with 0 by (unfold Rdiv; simpl; ring).
  rewrite exp_0. ring.
Qed.

Lemma nonneg_In (x : spectrum) (p : peak) :
  nonneg_intensities x -> In p x -> 0 <= snd p.
Proof.
  intros Hx Hp. exact (proj1 (List.Forall_forall _ x) Hx p Hp).
Qed.

Lemma evaluate_gradient_sym (self : DiffusionKernel) (x y : spectrum) :
  evaluate_gradient self x y = evaluate_gradient self y x.
Proof.
  rewrite !evaluate_gradient_pair_sum, pair_sum_swap. f_equal.
  apply pair_sum_ext. intros p q. apply overlap_gradient_sym.
Qed.

End MoreEvaluators.

(** The gradient, for [sigma > 0], is minus the sum over all [i] in [0, n)
    and [j] in [0, m) of
    [(pos_x[i] - pos_y[j])^2 * intensity_x[i] * intensity_y[j]
     * exp(-(pos_x[i] - pos_y[j])^2 / (8 sigma)) / (4 sigma^2)]. *)
Theorem evaluate_gradient_closed_form
    (self : DiffusionKernel) (x y : spectrum) :
  0 < sigma self ->
  evaluate_gradient self x y = evaluate_gradient_spec x y (sigma self).
Proof.
  intros _. rewrite evaluate_gradient_pair_sum.
  unfold evaluate_gradient_spec, pair_sum. f_equal. symmetry.
  etransitivity.
  - apply (sum1_seq_nth (0, 0)
             (fun p => np.sum1 (map (fun j =>
                (fst p - position y j) ^ 2
                * (snd p * intensity y j
                   * exp (- (fst p - position y j) ^ 2 / (8 * sigma self)))
                / (4 * sigma self ^ 2))
              (seq 0 (length y)))) x).
  - apply sum1_map_ext. intros p.
    apply (sum1_seq_nth (0, 0) (overlap_gradient (sigma self) p) y).
Qed.

Lemma evaluate_gradient_closed_form_witness :
  0 < sigma unit_kernel
  /\ evaluate_gradient unit_kernel two_peaks peak_at_1
     = evaluate_gradient_spec two_peaks peak_at_1 (sigma unit_kernel).
Proof.
  split; [simpl; lra|].
  apply (evaluate_gradient_closed_form unit_kernel two_peaks peak_at_1).
  simpl; lra.
Defined.

(** The gradient is symmetric in its two point sets, like the kernel. *)
Theorem evaluate_gradient_symmetric
    (self : DiffusionKernel) (x y : spectrum) :
  0 < sigma self ->
  evaluate_gradient self x y = evaluate_gradient self y x.
Proof.
  intros _. apply evaluate_gradient_sym.
Qed.

Lemma evaluate_gradient_symmetric_witness :
  0 < sigma unit_kernel
  /\ evaluate_gradient unit_kernel two_peaks peak_at_1
     = evaluate_gradient unit_kernel peak_at_1 two_peaks.
Proof.
  split; [simpl; lra|].
  apply (evaluate_gradient_symmetric unit_kernel two_peaks peak_at_1).
  simpl; lra.
Defined.

(** For [sigma > 0] and point sets with non-negative intensities the
    gradient is at most zero. *)
Theorem evaluate_gradient_nonpositive
    (self : DiffusionKernel) (x y : spectrum) :
  0 < sigma self ->
  nonneg_intensities x -> nonneg_intensities y ->
  evaluate_gradient self x y <= 0.
Proof.
  intros Hs Hx Hy. rewrite evaluate_gradient_pair_sum.
  apply Ropp_le_cancel. rewrite Ropp_involutive, Ropp_0.
  apply pair_sum_nonneg. intros p q Hp Hq.
  apply overlap_gradient_nonneg; eauto using nonneg_In.
Qed.

Lemma evaluate_gradient_nonpositive_witness :
  0 < sigma unit_kernel
  /\ nonneg_intensities two_peaks
  /\ nonneg_intensities peak_at_1
  /\ evaluate_gradient unit_kernel two_peaks peak_at_1 <= 0.
Proof.
  assert (H2 : nonneg_intensities two_peaks)
    by (repeat constructor; simpl; lra).
  assert (H1 : nonneg_intensities peak_at_1)
    by (repeat constructor; simpl; lra).
  split; [simpl; lra|]. split; [exact H2|]. split; [exact H1|].
  apply (evaluate_gradient_nonpositive unit_kernel two_peaks peak_at_1);
    [simpl; lra | exact H2 | exact H1].
Defined.

(** Both evaluators are additive in each point set: the value on a
    concatenation is the sum of the values on the parts. *)
Theorem evaluators_additive
    (self : DiffusionKernel) (x x' y y' : spectrum) :
  0 < sigma self ->
  evaluate_kernel self (x ++ x') y
    = evaluate_kernel self x y + evaluate_kernel self x' y
  /\ evaluate_kernel self x (y ++ y')
    = evaluate_kernel self x y + evaluate_kernel self x y'
  /\ evaluate_gradient self (x ++ x') y
    = evaluate_gradient self x y + evaluate_gradient self x' y
  /\ evaluate_gradient self x (y ++ y')
    = evaluate_gradient self x y + evaluate_gradient self x y'.
Proof.
  intros _.
  rewrite !evaluate_kernel_pair_sum, !evaluate_gradient_pair_sum,
    !pair_sum_app_l, !pair_sum_app_r.
  repeat split; lra.
Qed.

Lemma evaluators_additive_witness :
  0 < sigma unit_kernel
  /\ evaluate_kernel unit_kernel (peak_at_0 ++ peak_at_1) two_peaks
     = evaluate_kernel unit_kernel peak_at_0 two_peaks
       + evaluate_kernel unit_kernel peak_at_1 two_peaks.
Proof.
  split; [simpl; lra|].
  apply (evaluators_additive unit_kernel peak_at_0 peak_at_1 two_peaks []).
  simpl; lra.
Defined.

(** Multiplying every intensity of one point set by [c] multiplies the
    kernel and the gradient by [c]. *)
Theorem evaluators_homogeneous
    (self : DiffusionKernel) (c : R) (x y : spectrum) :
  0 < sigma self ->
  evaluate_kernel self (scale_intensities c x) y
    = c * evaluate_kernel self x y
  /\ evaluate_kernel self x (scale_intensities c y)
    = c * evaluate_kernel self x y
  /\ evaluate_gradient self (scale_intensities c x) y
    = c * evaluate_gradient self x y
  /\ evaluate_gradient self x (scale_intensities c y)
    = c * evaluate_gradient self x y.
Proof.
  intros _.
  assert (K : forall a b, evaluate_kernel self (scale_intensities c a) b
                          = c * evaluate_kernel self a b).
  { intros a b. rewrite !evaluate_kernel_pair_sum. unfold scale_intensities.
    rewrite <- (List.map_id b) at 1. rewrite pair_sum_map.
    rewrite (pair_sum_ext _ (fun p q => c * overlap (sigma self) p q))
      by (intros p q; apply overlap_scale_l).
    rewrite pair_sum_scal. lra. }
  assert (G : forall a b, evaluate_gradient self (scale_intensities c a) b
                          = c * evaluate_gradient self a b).
  { intros a b. rewrite !evaluate_gradient_pair_sum. unfold scale_intensities.
    rewrite <- (List.map_id b) at 1. rewrite pair_sum_map.
    rewrite (pair_sum_ext _ (fun p q => c * overlap_gradient (sigma self) p q))
      by (intros p q; apply overlap_gradient_scale_l).
    rewrite pair_sum_scal. lra. }
  split; [apply K|]. split.
  - rewrite evaluate_kernel_sym, K. now rewrite (evaluate_kernel_sym self y x).
  - split; [apply G|].
    rewrite evaluate_gradient_sym, G.
    now rewrite (evaluate_gradient_sym self y x).
Qed.

Lemma evaluators_homogeneous_witness :
  0 < sigma unit_kernel
  /\ evaluate_kernel unit_kernel (scale_intensities 3 two_peaks) peak_at_1
     = 3 * evaluate_kernel unit_kernel two_peaks peak_at_1.
Proof.
  split; [simpl; lra|].
  apply (evaluators_homogeneous unit_kernel 3 two_peaks peak_at_1).
  simpl; lra.
Defined.

(** The kernel is stationary: moving every position of both point sets by
    the same amount changes neither the kernel nor the gradient. *)
Theorem evaluators_translation_invariant
    (self : DiffusionKernel) (t : R) (x y : spectrum) :
  0 < sigma self ->
  evaluate_kernel self (shift_positions t x) (shift_positions t y)
    = evaluate_kernel self x y
  /\ evaluate_gradient self (shift_positions t x) (shift_positions t y)
    = evaluate_gradient self x y.
Proof.
  intros _.
  rewrite !evaluate_kernel_pair_sum, !evaluate_gradient_pair_sum.
  unfold shift_positions. rewrite !pair_sum_map. split; f_equal.
  - apply pair_sum_ext. intros p q. apply overlap_shift.
  - apply pair_sum_ext. intros p q. apply overlap_gradient_shift.
Qed.

Lemma evaluators_translation_invariant_witness :
  0 < sigma unit_kernel
  /\ evaluate_kernel unit_kernel
       (shift_positions 5 two_peaks) (shift_positions 5 peak_at_1)
     = evaluate_kernel unit_kernel two_peaks peak_at_1.
Proof.
  split; [simpl; lra|].
  apply (evaluators_translation_invariant unit_kernel 5 two_peaks peak_at_1).
  simpl; lra.
Defined.

(** Two point sets of one peak each: the kernel is minus the product of the
    two intensities damped by the squared distance of the positions; when
    the positions coincide it is minus the product itself and the gradient
    is zero. *)
Theorem single_peak_kernel
    (self : DiffusionKernel) (a b p q : R) :
  0 < sigma self ->
  evaluate_kernel self [(a, p)] [(b, q)]
    = - (p * q * exp (- (a - b) ^ 2 / (8 * sigma self)))
  /\ evaluate_kernel self [(a, p)] [(a, q)] = - (p * q)
  /\ evaluate_gradient self [(a, p)] [(a, q)] = 0.
Proof.
  intros _.
  rewrite !evaluate_kernel_pair_sum, evaluate_gradient_pair_sum.
  unfold pair_sum. cbn [map np.sum1 foldr].
  unfold overlap_gradient. rewrite overlap_same_position.
  unfold overlap. simpl fst. simpl snd.
  split; [lra|]. split; [lra|].
  replace ((a - a) ^ 2) with 0 by (simpl; ring).
  unfold Rdiv. ring.
Qed.

Lemma single_peak_kernel_witness :
  0 < sigma unit_kernel
  /\ evaluate_kernel unit_kernel [(0, 1)] [(0, 1)] = - (1 * 1).
Proof.
  split; [simpl; lra|].
  apply (single_peak_kernel unit_kernel 0 0 1 1). simpl; lra.
Defined.

(** For [sigma > 0] and non-negative intensities the kernel is never below
    minus the product of the two total intensities. *)
Theorem kernel_lower_bound
    (self : DiffusionKernel) (x y : spectrum) :
  0 < sigma self ->
  nonneg_intensities x -> nonneg_intensities y ->
  - (total_intensity x * total_intensity y) <= evaluate_kernel self x y.
Proof.
  intros Hs Hx Hy. rewrite evaluate_kernel_pair_sum, <- pair_sum_product.
  apply Ropp_le_contravar, pair_sum_le. intros p q Hp Hq.
  apply overlap_le_product; eauto using nonneg_In.
Qed.

Lemma kernel_lower_bound_witness :
  0 < sigma unit_kernel
  /\ nonneg_intensities two_peaks
  /\ nonneg_intensities peak_at_1
  /\ - (total_intensity two_peaks * total_intensity peak_at_1)
     <= evaluate_kernel unit_kernel two_peaks peak_at_1.
Proof.
  assert (H2 : nonneg_intensities two_peaks)
    by (repeat constructor; simpl; lra).
  assert (H1 : nonneg_intensities peak_at_1)
    by (repeat constructor; simpl; lra).
  split; [simpl; lra|]. split; [exact H2|]. split; [exact H1|].
  apply (kernel_lower_bound unit_kernel two_peaks peak_at_1);
    [simpl; lra | exact H2 | exact H1].
Defined.

(** For non-negative intensities a larger smoothing parameter gives a
    smaller (more negative) kernel value. *)
Theorem kernel_monotone_in_sigma (s t : R) (x y : spectrum) :
  0 < s -> s <= t ->
  nonneg_intensities x -> nonneg_intensities y ->
  evaluate_kernel (mkKernel t) x y <= evaluate_kernel (mkKernel s) x y.
Proof.
  intros Hs Hst Hx Hy. rewrite !evaluate_kernel_pair_sum. simpl sigma.
  apply Ropp_le_contravar, pair_sum_le. intros p q Hp Hq.
  apply overlap_mono_sigma; eauto using nonneg_In.
Qed.

Lemma kernel_monotone_in_sigma_witness :
  0 < 1 /\ 1 <= 2
  /\ nonneg_intensities two_peaks
  /\ nonneg_intensities peak_at_1
  /\ evaluate_kernel (mkKernel 2) two_peaks peak_at_1
     <= evaluate_kernel (mkKernel 1) two_peaks peak_at_1.
Proof.
  assert (H2 : nonneg_intensities two_peaks)
    by (repeat constructor; simpl; lra).
  assert (H1 : nonneg_intensities peak_at_1)
    by (repeat constructor; simpl; lra).
  split; [lra|]. split; [lra|]. split; [exact H2|]. split; [exact H1|].
  apply (kernel_monotone_in_sigma 1 2 two_peaks peak_at_1);
    [lra | lra | exact H2 | exact H1].
Defined.

(** For every pair of point sets and every [sigma > 0] the kernel is
    differentiable in [sigma], with derivative half of what
    [evaluate_gradient] returns. *)
Theorem kernel_derivative_is_half_gradient (x y : spectrum) (s : R) :
  0 < s ->
  derivable_pt_lim (fun t => evaluate_kernel (mkKernel t) x y) s
    (evaluate_gradient (mkKernel s) x y / 2).
Proof.
  intros Hs. now apply evaluate_kernel_derivative.
Qed.

Lemma kernel_derivative_is_half_gradient_witness :
  0 < 2
  /\ derivable_pt_lim (fun t => evaluate_kernel (mkKernel t) two_peaks peak_at_1)
       2 (evaluate_gradient (mkKernel 2) two_peaks peak_at_1 / 2).
Proof.
  split; [lra|].
  apply (kernel_derivative_is_half_gradient two_peaks peak_at_1 2). lra.
Defined.

(** ** The kernel for large [sigma] *)

Section Limits.

Lemma tends_const (c : R) : tends_to_at_infinity (fun _ => c) c.
Proof.
  intros eps He. exists 1. split; [lra|]. intros s _.
  replace (c - c) with 0 by lra. now rewrite Rabs_R0.
Qed.

Lemma tends_plus (F G : R -> R) (a b : R) :
  tends_to_at_infinity F a -> tends_to_at_infinity G b ->
  tends_to_at_infinity (fun s => F s + G s) (a + b).
Proof.
  intros HF HG eps He.
  destruct (HF (eps / 2)) as [S1 [HS1 H1]]; [lra|].
  destruct (HG (eps / 2)) as [S2 [HS2 H2]]; [lra|].
  exists (Rmax S1 S2). split.
  - apply Rlt_le_trans with S1; [exact HS1 | apply Rmax_l].
  - intros s Hs.
    assert (S1 < s) by (apply Rle_lt_trans with (Rmax S1 S2); [apply Rmax_l | exact Hs]).
    assert (S2 < s) by (apply Rle_lt_trans with (Rmax S1 S2); [apply Rmax_r | exact Hs]).
    replace (F s + G s - (a + b)) with ((F s - a) + (G s - b)) by lra.
    apply Rle_lt_trans with (Rabs (F s - a) + Rabs (G s - b));
      [apply Rabs_triang|].
    specialize (H1 s ltac:(assumption)). specialize (H2 s ltac:(assumption)).
    lra.
Qed.

Lemma tends_opp (F : R -> R) (a : R) :
  tends_to_at_infinity F a -> tends_to_at_infinity (fun s => - F s) (- a).
Proof.
  intros HF eps He. destruct (HF eps He) as [S [HS H]].
  exists S. split; [exact HS|]. intros s Hs.
  replace (- F s - - a) with (- (F s - a)) by lra.
  rewrite Rabs_Ropp. now apply H.
Qed.

Lemma tends_ext (F G : R -> R) (a : R) :
  (forall s, F s = G s) ->
  tends_to_at_infinity F a -> tends_to_at_infinity G a.
Proof.
  intros E HF eps He. destruct (HF eps He) as [S [HS H]].
  exists S. split; [exact HS|]. intros s Hs. rewrite <- E. now apply H.
Qed.

Lemma tends_sum1 {A : Type} (F : R -> A -> R) (G : A -> R) (l : list A) :
  (forall a, tends_to_at_infinity (fun s => F s a) (G a)) ->
  tends_to_at_infinity (fun s => np.sum1 (map (F s) l)) (np.sum1 (map G l)).
Proof.
  intros H. induction l as [|a l IH]; simpl.
  - apply tends_const.
  - apply (tends_plus (fun s => F s a) _ _ _ (H a) IH).
Qed.

Lemma tends_pair_sum (f : R -> peak -> peak -> R) (g : peak -> peak -> R)
    (x y : spectrum) :
  (forall p q, tends_to_at_infinity (fun s => f s p q) (g p q)) ->
  tends_to_at_infinity (fun s => pair_sum (f s) x y) (pair_sum g x y).
Proof.
  intros H. unfold pair_sum.
  apply (tends_sum1 (fun s p => np.sum1 (map (f s p) y))).
  intros p. apply (tends_sum1 (fun s q => f s p q)). intros q. apply H.
Qed.

(** One term: the damping factor tends to one. *)
Lemma overlap_tends (p q : peak) :
  tends_to_at_infinity (fun s => overlap s p q) (snd p * snd q).
Proof.
  intros eps He. unfold overlap.
  set (c := snd p * snd q). set (d := (fst p - fst q) ^ 2).
  assert (Hd : 0 <= d) by apply sq_nonneg.
  assert (Hc : 0 <= Rabs c) by apply Rabs_pos.
  set (A := Rabs c * d / eps).
  assert (HA : A * eps = Rabs c * d) by (unfold A; field; lra).
  assert (HA0 : 0 <= A).
  { unfold A, Rdiv. apply Rmult_le_pos; [now apply Rmult_le_pos|].
    left. now apply Rinv_0_lt_compat. }
  exists (1 + A). split; [lra|]. intros s Hs.
  assert (Hs0 : 0 < s) by lra.
  set (u := d / (8 * s)).
  assert (Hu : u * (8 * s) = d) by (unfold u; field; lra).
  assert (Hu0 : 0 <= u).
  { unfold u, Rdiv. apply Rmult_le_pos; [exact Hd|].
    left. apply Rinv_0_lt_compat. lra. }
  replace (- d / (8 * s)) with (- u) by (unfold u, Rdiv; ring).
  assert (E1 : exp (- u) <= 1) by (apply exp_nonpos_le_1; lra).
  assert (E2 : 1 + - u <= exp (- u)) by apply exp_ineq1_le.
  replace (c * exp (- u) - c) with (c * (exp (- u) - 1)) by ring.
  rewrite Rabs_mult, (Rabs_left1 (exp (- u) - 1)) by lra.
  apply Rle_lt_trans with (Rabs c * u).
  - apply Rmult_le_compat_l; [exact Hc | lra].
  - apply Rmult_lt_reg_r with (8 * s); [lra|].
    replace (Rabs c * u * (8 * s)) with (Rabs c * (u * (8 * s))) by ring.
    rewrite Hu, <- HA. nra.
Qed.

End Limits.

(** As [sigma] grows without bound the kernel of two point sets tends to
    minus the product of their total intensities. *)
Theorem kernel_tends_to_total_product (x y : spectrum) :
  tends_to_at_infinity (fun s => evaluate_kernel (mkKernel s) x y)
    (- (total_intensity x * total_intensity y)).
Proof.
  apply tends_ext with (F := fun s => - pair_sum (overlap s) x y).
  { intros s. now rewrite evaluate_kernel_pair_sum. }
  rewrite <- pair_sum_product.
  apply (tends_opp (fun s => pair_sum (overlap s) x y)).
  apply tends_pair_sum. intros p q. apply overlap_tends.
Qed.

(** ** Further properties of the assembler *)

Section MoreAssembler.

Lemma pairwise_shape (f : spectrum -> spectrum -> R) (X Y : collection) :
  has_shape (map (fun x => map (fun y => f x y) Y) X) (length X) (length Y).
Proof.
  split; [apply length_map|].
  apply List.Forall_forall. intros row Hrow.
  apply List.in_map_iff in Hrow as (x & <- & _). apply length_map.
Qed.

Lemma pairwise_entry_outside (f : spectrum -> spectrum -> R)
    (X Y : collection) (i j : nat) :
  (length X <= i)%nat \/ (length Y <= j)%nat ->
  entry (map (fun x => map (fun y => f x y) Y) X) i j = None.
Proof.
  intros H. rewrite pairwise_entry.
  destruct (X !! i) as [x|] eqn:Ex; simpl; [|reflexivity].
  destruct (Y !! j) as [y|] eqn:Ey; simpl; [|reflexivity].
  apply lookup_lt_Some in Ex. apply lookup_lt_Some in Ey. lia.
Qed.


End MoreAssembler.

(** Cross mode, for [sigma > 0]: [__call__(A, B)] prints nothing and
    returns a matrix of shape [(|A|, |B|)] whose entry [i, j] is
    [evaluate_kernel(A[i], B[j])]; there is no entry outside that range. *)
Theorem cross_matrix_entries
    (self : DiffusionKernel) (A B : collection) (w : World) :
  0 < sigma self ->
  exists K,
    snd (__call__ self A (Some B) false w) = Ok (PyArray K)
    /\ stdout (fst (__call__ self A (Some B) false w)) = stdout w
    /\ has_shape K (length A) (length B)
    /\ (forall i j x y, A !! i = Some x -> B !! j = Some y ->
          entry K i j = Some (evaluate_kernel self x y))
    /\ (forall i j, (length A <= i)%nat \/ (length B <= j)%nat ->
          entry K i j = None).
Proof.
  intros _. eexists. split; [reflexivity|]. split; [reflexivity|].
  split; [apply pairwise_shape|]. split.
  - intros i j x y Hx Hy. rewrite pairwise_entry. simpl.
    now rewrite Hx, Hy.
  - intros i j H. now apply pairwise_entry_outside.
Qed.

Lemma cross_matrix_entries_witness :
  0 < sigma unit_kernel
  /\ exists K,
       snd (__call__ unit_kernel [two_peaks; peak_at_1] (Some [peak_at_0])
              false world0) = Ok (PyArray K)
       /\ has_shape K 2 1.
Proof.
  split; [simpl; lra|].
  destruct (cross_matrix_entries unit_kernel [two_peaks; peak_at_1]
              [peak_at_0] world0) as [K [HK [_ [HS _]]]]; [simpl; lra|].
  exists K. split; [exact HK | exact HS].
Defined.

(** Self-similarity mode without gradient, for [sigma > 0]: [__call__(X)]
    prints nothing and returns a square matrix of the size of [X] whose
    entry [i, j] is [evaluate_kernel(X[i], X[j])]. *)
Theorem self_matrix_entries
    (self : DiffusionKernel) (X : collection) (w : World) :
  0 < sigma self ->
  exists K,
    snd (__call__ self X None false w) = Ok (PyArray K)
    /\ stdout (fst (__call__ self X None false w)) = stdout w
    /\ has_shape K (length X) (length X)
    /\ (forall i j x y, X !! i = Some x -> X !! j = Some y ->
          entry K i j = Some (evaluate_kernel self x y))
    /\ (forall i j, (length X <= i)%nat \/ (length X <= j)%nat ->
          entry K i j = None).
Proof.
  intros _. eexists. split; [reflexivity|]. split; [reflexivity|].
  split; [apply pairwise_shape|]. split.
  - intros i j x y Hx Hy. rewrite pairwise_entry. simpl.
    now rewrite Hx, Hy.
  - intros i j H. now apply pairwise_entry_outside.
Qed.

Lemma self_matrix_entries_witness :
  0 < sigma unit_kernel
  /\ exists K,
       snd (__call__ unit_kernel [two_peaks; peak_at_1] None false world0)
       = Ok (PyArray K)
       /\ has_shape K 2 2.
Proof.
  split; [simpl; lra|].
  destruct (self_matrix_entries unit_kernel [two_peaks; peak_at_1] world0)
    as [K [HK [_ [HS _]]]]; [simpl; lra|].
  exists K. split; [exact HK | exact HS].
Defined.

(** Exchanging the two collections of the cross mode transposes the
    matrix. *)
Theorem cross_matrix_transpose
    (self : DiffusionKernel) (A B : collection) (w : World) :
  0 < sigma self ->
  exists K K',
    snd (__call__ self A (Some B) false w) = Ok (PyArray K)
    /\ snd (__call__ self B (Some A) false w) = Ok (PyArray K')
    /\ forall i j, entry K i j = entry K' j i.
Proof.
  intros _. eexists. eexists. split; [reflexivity|]. split; [reflexivity|].
  intros i j. rewrite !pairwise_entry. simpl.
  destruct (A !! i) as [x|], (B !! j) as [y|]; simpl; try reflexivity.
  now rewrite evaluate_kernel_sym.
Qed.

Lemma cross_matrix_transpose_witness :
  0 < sigma unit_kernel
  /\ exists K K',
       snd (__call__ unit_kernel [two_peaks; peak_at_1] (Some [peak_at_0])
              false world0) = Ok (PyArray K)
       /\ snd (__call__ unit_kernel [peak_at_0] (Some [two_peaks; peak_at_1])
                 false world0) = Ok (PyArray K')
       /\ entry K 1 0 = entry K' 0 1.
Proof.
  split; [simpl; lra|].
  destruct (cross_matrix_transpose unit_kernel [two_peaks; peak_at_1]
              [peak_at_0] world0) as [K [K' [HK [HK' HT]]]]; [simpl; lra|].
  exists K, K'. split; [exact HK|]. split; [exact HK' | apply HT].
Defined.



(** [diag] works element by element: on a concatenation of two collections
    it is the concatenation of the two diagonals. *)
Theorem diag_app (self : DiffusionKernel) (X Y : collection) :
  diag self (X ++ Y) = diag self X ++ diag self Y.
Proof.
  rewrite !diag_map. apply List.map_app.
Qed.

(** For [sigma > 0] and non-negative intensities, each cell of [diag] is at
    most minus the sum of the squared intensities of its point set. *)
Theorem diag_upper_bound
    (self : DiffusionKernel) (C : collection) (i : nat) (x : spectrum) :
  0 < sigma self ->
  C !! i = Some x ->
  nonneg_intensities x ->
  exists v, diag self C !! i = Some v /\ v <= - squared_intensity x.
Proof.
  intros Hs Hi Hx. exists (evaluate_kernel self x x). split.
  - now rewrite diag_map, lookup_map, Hi.
  - rewrite evaluate_kernel_pair_sum. apply Ropp_le_contravar.
    unfold squared_intensity.
    rewrite (sum1_map_ext _ (fun p => overlap (sigma self) p p)).
    + apply pair_sum_diagonal_le. intros p q Hp Hq.
      apply overlap_nonneg; eauto using nonneg_In.
    + intros [a p]. rewrite overlap_same_position. simpl. ring.
Qed.

Lemma diag_upper_bound_witness :
  0 < sigma unit_kernel
  /\ [peak_at_1; two_peaks] !! 1%nat = Some two_peaks
  /\ nonneg_intensities two_peaks
  /\ exists v, diag unit_kernel [peak_at_1; two_peaks] !! 1%nat = Some v
               /\ v <= - squared_intensity two_peaks.
Proof.
  assert (H2 : nonneg_intensities two_peaks)
    by (repeat constructor; simpl; lra).
  split; [simpl; lra|]. split; [reflexivity|]. split; [exact H2|].
  apply (diag_upper_bound unit_kernel [peak_at_1; two_peaks] 1 two_peaks);
    [simpl; lra | reflexivity | exact H2].
Defined.
